(** * OfflineASMC/CodeGen.h: emission nodes, instruction table, labels,
      collection scopes and the ARM64 register table.

    A shallow embedding of the code generator of [src/OfflineASMC/CodeGen.h]
    and of the label macros of [src/Cpp/LowLevelInterpreter.cpp], followed by
    the properties the specification states about them.  After these come
    [call_test] of [src/Cpp/test.cc] and the branch functions of
    [src/TestASM/test.cc], with further properties read off the code. *)

From Stdlib Require Import String Ascii ZArith DecimalString.
From stdpp Require Import base option list strings gmap.

Open Scope Z_scope.

(** ** What a call does *)

(** A call either returns a value, or ends the process through
    [std::exit(status)], or runs into behaviour C++ leaves undefined
    ([top()] of an empty [std::stack]). *)
Inductive Outcome (A : Type) : Type :=
| Returns (a : A)
| Exits (status : Z)
| Undefined.

Arguments Returns {A} a.
Arguments Exits {A} status.
Arguments Undefined {A}.

(** Sequencing: what follows an exit never runs. *)
#[global] Instance Outcome_ret : MRet Outcome := @Returns.

#[global] Instance Outcome_bind : MBind Outcome := fun A B k m =>
  match m with
  | Returns a => k a
  | Exits status => Exits status
  | Undefined => Undefined
  end.

(** [std::exit]: does not return. *)
Definition std_exit {A : Type} (status : Z) : Outcome A := Exits status.

(** ** Emission nodes *)

(** [class Reg]: a register, which is its name. *)
Inductive Reg : Type := mkReg (name : string).

#[global] Instance Reg_eq_dec : EqDecision Reg.
Proof. solve_decision. Defined.

(** [class Label]: the name and the four attributes with their in-class
    initialisers ([false], [false], [0], [false]). *)
Record Label : Type := mkLabel {
  name : string;
  m_inFile : bool;
  m_global : bool;
  m_alignTo : Z;
  m_extern : bool
}.

(** The subclasses of [class Generator].  [Code] is a pointer to one of
    them, so a [SequenceGenerator] holds a list of nodes. *)
#[warnings="-register-all"]
Inductive Generator : Type :=
| TextGenerator (text : string)
| RegGenerator (r : Reg)
| SequenceGenerator (sequence : list Generator)
| LabelGenerator (l : Label).

Abbreviation Code := Generator (only parsing).

Coercion RegGenerator : Reg >-> Generator.
Coercion LabelGenerator : Label >-> Generator.

(** [Generator::generate], by dynamic dispatch on the node.  The loop of
    [SequenceGenerator::generate] starts from the empty [result] and appends
    the text of each child in turn; [Label::generate] returns the name. *)
Fixpoint generate (g : Generator) : string :=
  match g with
  | TextGenerator text => text
  | RegGenerator (mkReg name) => name
  | SequenceGenerator sequence =>
      fold_left (fun result code => result +:+ generate code) sequence ""
  | LabelGenerator l => name l
  end.

(** The texts of a list of nodes, one after the other. *)
Definition generate_all (codes : list Generator) : string :=
  String.concat "" (map generate codes).

(** [seq(...)]: a [SequenceGenerator] over the arguments, in order. *)
Definition seq (sequence : list Generator) : Code := SequenceGenerator sequence.

(** [text(expr)].  A string literal passed where a [Code] is expected
    (["add"], ["32"]) is read as this node. *)
Definition text (expr : string) : Code := TextGenerator expr.

(** [reg(expr)]. *)
Definition reg (expr : string) : Reg := mkReg expr.

(** ** The instruction table *)

Module Instr.

(** [INSTR(name, impl)] declares [name_impl(operands)], which returns
    [impl], and the variadic [name(args...)], which packs its arguments into
    a vector and calls [name_impl]. *)

Definition addp_impl (operands : list Code) : Outcome Code :=
  Returns (seq [text "add"; seq operands; text "32"]).
Definition push_impl (operands : list Code) : Outcome Code :=
  Returns (seq [text "push"; seq operands; text "32"]).
(** The body is a lambda that calls [std::exit(1)] and only then returns the
    empty sequence. *)
Definition error_impl (operands : list Code) : Outcome Code :=
  _ ← std_exit (A := unit) 1; Returns (seq []).
Definition move_impl (operands : list Code) : Outcome Code :=
  Returns (seq [text "move"; seq operands; text "32"]).
Definition pop_impl (operands : list Code) : Outcome Code :=
  Returns (seq [text "pop"; seq operands; text "32"]).
Definition subp_impl (operands : list Code) : Outcome Code :=
  Returns (seq [text "sub"; seq operands; text "32"]).
Definition storepairq_impl (operands : list Code) : Outcome Code :=
  Returns (seq [text "storepairq"; seq operands; text "32"]).
Definition storeq_impl (operands : list Code) : Outcome Code :=
  Returns (seq [text "storeq"; seq operands; text "32"]).
Definition loadpairq_impl (operands : list Code) : Outcome Code :=
  Returns (seq [text "loadpairq"; seq operands; text "32"]).
Definition loadq_impl (operands : list Code) : Outcome Code :=
  Returns (seq [text "loadq"; seq operands; text "32"]).
Definition _break_impl (operands : list Code) : Outcome Code :=
  Returns (seq [text "brk"; seq operands; text "32"]).
Definition jmp_impl (operands : list Code) : Outcome Code :=
  Returns (seq [text "jmp"; seq operands; text "32"]).
Definition ret_impl (operands : list Code) : Outcome Code :=
  Returns (seq [text "ret"; seq operands; text "32"]).
Definition call_impl (operands : list Code) : Outcome Code :=
  Returns (seq [text "call"; seq operands; text "32"]).
Definition bpeq_impl (operands : list Code) : Outcome Code :=
  Returns (seq [text "bpeq"; seq operands; text "32"]).

(** The constructors the table declares, by the macro's first argument. *)
Inductive t : Type :=
| addp | push | error | move | pop | subp | storepairq | storeq
| loadpairq | loadq | _break | jmp | ret | call | bpeq.

#[global] Instance t_eq_dec : EqDecision t.
Proof. solve_decision. Defined.

(** The constructor's name as written in the table. *)
Definition constructor_name (i : t) : string :=
  match i with
  | addp => "addp" | push => "push" | error => "error" | move => "move"
  | pop => "pop" | subp => "subp" | storepairq => "storepairq"
  | storeq => "storeq" | loadpairq => "loadpairq" | loadq => "loadq"
  | _break => "_break" | jmp => "jmp" | ret => "ret" | call => "call"
  | bpeq => "bpeq"
  end.

(** [name(args...)]: the call of the constructor [i] with the operands
    [args]. *)
Definition build (i : t) (args : list Code) : Outcome Code :=
  match i with
  | addp => addp_impl args | push => push_impl args
  | error => error_impl args | move => move_impl args
  | pop => pop_impl args | subp => subp_impl args
  | storepairq => storepairq_impl args | storeq => storeq_impl args
  | loadpairq => loadpairq_impl args | loadq => loadq_impl args
  | _break => _break_impl args | jmp => jmp_impl args
  | ret => ret_impl args | call => call_impl args
  | bpeq => bpeq_impl args
  end.

(** A generation run that builds the listed instructions one after the
    other and collects the nodes they return. *)
Fixpoint build_all (calls : list (t * list Code)) : Outcome (list Code) :=
  match calls with
  | [] => Returns []
  | (i, args) :: rest =>
      c ← build i args;
      cs ← build_all rest;
      Returns (c :: cs)
  end.

End Instr.

(** ** Address operands *)

Section Address.

(** [address] passes its [int offset] to [seq] where a [Code] is expected;
    the source declares no conversion from [int] to [Code], so the node an
    integer becomes is a parameter here. *)
Variable int_code : Z -> Code.


End Address.

(** The decimal text of an integer, as [std::to_string] writes it. *)
Definition to_string (i : Z) : string := NilZero.string_of_int (Z.to_int i).


(** ** Labels *)

(** [label(name)]: a label with every attribute at its initialiser. *)
Definition label (name : string) : Label := mkLabel name false false 0 false.

(** The builder methods: each sets one member and returns the label. *)
Definition inFile (l : Label) : Label :=
  mkLabel (name l) true (m_global l) (m_alignTo l) (m_extern l).

Definition global (l : Label) : Label :=
  mkLabel (name l) (m_inFile l) true (m_alignTo l) (m_extern l).

Definition aligned (alignTo : Z) (l : Label) : Label :=
  mkLabel (name l) (m_inFile l) (m_global l) alignTo (m_extern l).

Definition extern_ (l : Label) : Label :=
  mkLabel (name l) (m_inFile l) (m_global l) (m_alignTo l) true.

(** A builder call, and a chain [l.b1().b2()...] of them. *)
Inductive Builder : Type :=
| InFile | Global | Aligned (alignTo : Z) | Extern.

(** Which of the four methods a call is of. *)
Inductive Method : Type := MInFile | MGlobal | MAligned | MExtern.

#[global] Instance Method_eq_dec : EqDecision Method.
Proof. solve_decision. Defined.

Definition method (b : Builder) : Method :=
  match b with
  | InFile => MInFile | Global => MGlobal
  | Aligned _ => MAligned | Extern => MExtern
  end.

Definition call_builder (b : Builder) (l : Label) : Label :=
  match b with
  | InFile => inFile l
  | Global => global l
  | Aligned alignTo => aligned alignTo l
  | Extern => extern_ l
  end.

Definition configure (calls : list Builder) (l : Label) : Label :=
  foldl (fun l b => call_builder b l) l calls.

(** The directive strings of [src/Cpp/LowLevelInterpreter.cpp] that a label
    block is made of; the two switches are [OS(DARWIN)] and
    [COMPILER(CLANG) && OS(DARWIN) && ENABLE(OFFLINE_ASM_ALT_ENTRY)]. *)
Module Directives.

Definition nl : string := String "010" "".

Definition OFFLINE_ASM_TEXT_SECTION (os_darwin : bool) : string :=
  if os_darwin
  then ".section __TEXT,__jsc_int,regular,pure_instructions" +:+ nl
  else ".text" +:+ nl.

Definition OFFLINE_ASM_ALIGN4B : string := ".balign 4" +:+ nl.

Definition OFFLINE_ASM_NOALIGN : string := "".

Definition OFFLINE_ASM_ALT_ENTRY_DIRECTIVE (alt_entry : bool) (symbol : string)
  : string :=
  if alt_entry then ".alt_entry " +:+ symbol +:+ nl else "".

(** The symbol definition that ends a label block: the name and a colon. *)
Definition symbol_definition (symbol : string) : string := symbol +:+ ":".

End Directives.

(** [contains needle hay]: [needle] occurs in [hay]. *)
Fixpoint contains (needle hay : string) : bool :=
  String.prefix needle hay
  || match hay with
     | EmptyString => false
     | String _ hay' => contains needle hay'
     end.

(** ** The ARM64 register table *)

Module ARM64.

Definition invalidGPR : Reg := reg "invalid".

Definition t0 : Reg := reg "x0".
Definition t1 : Reg := reg "x1".
Definition t2 : Reg := reg "x2".
Definition t3 : Reg := reg "x3".
Definition t4 : Reg := reg "x4".
Definition t5 : Reg := reg "x5".
Definition t6 : Reg := reg "x6".
Definition t7 : Reg := reg "x7".
Definition t8 : Reg := reg "x8".
Definition t9 : Reg := reg "x9".
Definition t10 : Reg := reg "x10".
Definition t11 : Reg := reg "x11".
Definition t12 : Reg := reg "x12".
Definition cfr : Reg := reg "x29".
Definition csr0 : Reg := reg "x19".
Definition csr1 : Reg := reg "x20".
Definition csr2 : Reg := reg "x21".
Definition csr3 : Reg := reg "x22".
Definition csr4 : Reg := reg "x23".
Definition csr5 : Reg := reg "x24".
Definition csr6 : Reg := reg "x25".
Definition csr7 : Reg := reg "x26".
Definition csr8 : Reg := reg "x27".
Definition csr9 : Reg := reg "x28".
Definition csr10 : Reg := invalidGPR.
Definition sp : Reg := reg "sp".
Definition lr : Reg := reg "lr".

Definition ws0 : Reg := t9.
Definition ws1 : Reg := t10.
Definition ws2 : Reg := t11.
Definition ws3 : Reg := t12.

Definition a0 : Reg := t0.
Definition a1 : Reg := t1.
Definition a2 : Reg := t2.
Definition a3 : Reg := t3.
Definition a4 : Reg := t4.
Definition a5 : Reg := t5.
Definition a6 : Reg := t6.
Definition a7 : Reg := t7.

Definition wa0 : Reg := t0.
Definition wa1 : Reg := t1.
Definition wa2 : Reg := t2.
Definition wa3 : Reg := t3.
Definition wa4 : Reg := t4.
Definition wa5 : Reg := t5.
Definition wa6 : Reg := t6.
Definition wa7 : Reg := t7.

Definition r0 : Reg := t0.
Definition r1 : Reg := t1.

(** Every logical register name the file declares, with the register it
    stands for. *)
Definition registers : list (string * Reg) :=
  [ ("t0", t0); ("t1", t1); ("t2", t2); ("t3", t3); ("t4", t4); ("t5", t5);
    ("t6", t6); ("t7", t7); ("t8", t8); ("t9", t9); ("t10", t10);
    ("t11", t11); ("t12", t12); ("cfr", cfr);
    ("csr0", csr0); ("csr1", csr1); ("csr2", csr2); ("csr3", csr3);
    ("csr4", csr4); ("csr5", csr5); ("csr6", csr6); ("csr7", csr7);
    ("csr8", csr8); ("csr9", csr9); ("csr10", csr10);
    ("sp", sp); ("lr", lr);
    ("ws0", ws0); ("ws1", ws1); ("ws2", ws2); ("ws3", ws3);
    ("a0", a0); ("a1", a1); ("a2", a2); ("a3", a3);
    ("a4", a4); ("a5", a5); ("a6", a6); ("a7", a7);
    ("wa0", wa0); ("wa1", wa1); ("wa2", wa2); ("wa3", wa3);
    ("wa4", wa4); ("wa5", wa5); ("wa6", wa6); ("wa7", wa7);
    ("r0", r0); ("r1", r1) ].

(** Looking a logical name up; a name the file does not declare resolves to
    nothing (the generator would not compile). *)
Fixpoint lookup_register (table : list (string * Reg)) (logical_name : string)
  : option Reg :=
  match table with
  | [] => None
  | (n, r) :: table' =>
      if String.eqb n logical_name then Some r
      else lookup_register table' logical_name
  end.

Definition resolve (logical_name : string) : option Reg :=
  lookup_register registers logical_name.

(** The names an ARM64 assembler reads as a general-purpose register:
    [x0]..[x30], [w0]..[w30], the stack pointer, the zero register and the
    aliases of [x29] and [x30].  This list is the architecture's, not the
    repository's. *)
Definition register_names : list string :=
  map (fun n => "x" +:+ to_string (Z.of_nat n)) (List.seq 0 31)
  ++ map (fun n => "w" +:+ to_string (Z.of_nat n)) (List.seq 0 31)
  ++ ["sp"; "wsp"; "xzr"; "wzr"; "fp"; "lr"].

Definition is_register_name (s : string) : bool :=
  existsb (String.eqb s) register_names.

End ARM64.

(** ** Collection scopes *)

Module Scopes.

(** The part of the process the scopes live in: the [codes] vector of every
    [CodeCollectionScope] object, by the object's address, and the static
    stack [s_scopes] of owning pointers, its top first. *)
Record World : Type := mkWorld {
  objects : gmap positive (list Generator);
  s_scopes : list positive
}.

(** An object comes into being with an empty [codes] vector. *)
Definition allocate (this : positive) (w : World) : World :=
  mkWorld (<[this := []]> (objects w)) (s_scopes w).

Definition push_scope (p : positive) (w : World) : World :=
  mkWorld (objects w) (p :: s_scopes w).

(** The constructor of the object at [this].  Its body pushes
    [std::make_unique<CodeCollectionScope>()]: it builds a second object on
    the heap, which runs this same constructor for it, and pushes the pointer
    to that object once its constructor has returned.  [fuel] bounds the depth
    of constructor calls; [None] means the bound was reached. *)
Fixpoint CodeCollectionScope_ctor (fuel : nat) (this : positive) (w : World)
  : option (Outcome World) :=
  match fuel with
  | O => None
  | S fuel' =>
      let w := allocate this w in
      let p := fresh (dom (objects w)) in
      match CodeCollectionScope_ctor fuel' p w with
      | Some (Returns w') => Some (Returns (push_scope p w'))
      | other => other
      end
  end.

(** The destructor of the object at [this], run with [stack] as the stack
    of owning pointers.  [top()] of the stack is compared with [this]; on a
    mismatch the process exits with status 1.  Otherwise [s_scopes.pop()]
    takes the top entry off the stack and destroys its owning pointer, which
    deletes the object it points to, the one at [this]: the destructor of
    that object runs again, now with the popped stack, and only when that
    call has returned is the object freed and does [pop()] return.  [top()]
    of an empty stack is undefined. *)
Fixpoint destroy_scope (this : positive)
    (objs : gmap positive (list Generator)) (stack : list positive)
  : Outcome World :=
  match stack with
  | [] => Undefined
  | top :: rest =>
      if decide (top <> this) then std_exit 1
      else
        w' ← destroy_scope this objs rest;
        Returns (mkWorld (delete top (objects w')) (s_scopes w'))
  end.

Definition CodeCollectionScope_dtor (this : positive) (w : World)
  : Outcome World :=
  destroy_scope this (objects w) (s_scopes w).

(** [addCode]: [codes.push_back(code)] on the object at [this]. *)
Definition addCode (this : positive) (code : Generator) (w : World) : World :=
  mkWorld (alter (fun codes => codes ++ [code]) this (objects w)) (s_scopes w).

(** [code()]: the sequence of the object's own [codes]. *)
Definition code (this : positive) (w : World) : option Generator :=
  seq <$> objects w !! this.

End Scopes.

(** ** Notions the properties are stated with *)

(** The mnemonic an instruction constructor is expected to print: its own
    name, but for [addp], [subp] and [_break]. *)
Definition mnemonic (i : Instr.t) : string :=
  match i with
  | Instr.addp => "add"
  | Instr.subp => "sub"
  | Instr._break => "brk"
  | _ => Instr.constructor_name i
  end.

(** [a], [b] and [c] occur in [s], one after the other. *)
Definition occur_in_order (a b c s : string) : Prop :=
  exists p q r t, s = p +:+ a +:+ q +:+ b +:+ r +:+ c +:+ t.

(** Two scope objects, [1] the outer and [2] the inner one, both on the
    stack. *)
Definition nested_scopes : Scopes.World :=
  Scopes.push_scope 2 (Scopes.allocate 2
    (Scopes.push_scope 1 (Scopes.allocate 1 (Scopes.mkWorld ∅ [])))).

(** What is checked of every row of the register table: the register has
    a name the assembler accepts and is not the sentinel, or it is the
    sentinel, named [invalid], which the assembler does not accept. *)
Definition row_ok (row : string * Reg) : bool :=
  (ARM64.is_register_name (generate row.2)
   && negb (bool_decide (row.2 = ARM64.invalidGPR)))
  || (bool_decide (row.2 = ARM64.invalidGPR)
      && String.eqb (generate row.2) "invalid"
      && negb (ARM64.is_register_name (generate row.2))).

(** ** Runs of calls *)

#[global] Instance Builder_eq_dec : EqDecision Builder.
Proof. solve_decision. Defined.

(** The argument of a call of [aligned]. *)
Definition alignment_of (b : Builder) : option Z :=
  match b with
  | Aligned alignTo => Some alignTo
  | _ => None
  end.

(** The argument of the last call of [aligned] in a chain. *)
Definition last_alignment (calls : list Builder) : option Z :=
  last (omap alignment_of calls).

(** The text one instruction of a run is expected to print. *)
Definition instruction_text (call : Instr.t * list Generator) : string :=
  mnemonic call.1 +:+ generate_all call.2 +:+ "32".

(** Scopes going out of scope one after the other: the destructor of each
    listed object runs in turn. *)
Fixpoint destroy_all (scopes : list positive) (w : Scopes.World)
  : Outcome Scopes.World :=
  match scopes with
  | [] => Returns w
  | this :: scopes' =>
      w' ← Scopes.CodeCollectionScope_dtor this w;
      destroy_all scopes' w'
  end.


(** ** Cpp/test.cc *)

Module CppTest.

(** A value held in a [uint32_t]. *)
Definition uint32_t (z : Z) : Z := z mod 2 ^ 32.

(** [std::endl], as text. *)
Definition endl : string := String "010" "".

Section CallTest.

(** How the stream writes an unsigned number; it depends on the base the
    stream is in when [call_test] runs. *)
Variable show : Z -> string.

(** [call_test]: the line it prints and the value it returns.  The two
    shifts are taken in [uint32_t]; [0x42 << 24] is an [int] that fits. *)
Definition call_test (arg1 arg2 : Z) : string * Z :=
  let ret :=
    Z.lor (Z.lor (uint32_t (Z.shiftl arg1 0)) (uint32_t (Z.shiftl arg2 16)))
          (Z.shiftl 0x42 24) in
  ("Call test with arguments: " +:+ show arg1 +:+ ", " +:+ show arg2
     +:+ " = " +:+ show ret +:+ endl,
   ret).

End CallTest.

End CppTest.

(** ** TestASM/test.cc *)

Module TestASM.

(** [testBranch2], in C++. *)
Definition testBranch2 (i len : Z) : Z :=
  if i =? -1 then 2
  else if i <? len then 1
  else 2.

(** [testBranch4]: the same text. *)
Definition testBranch4 (i len : Z) : Z :=
  if i =? -1 then 2
  else if i <? len then 1
  else 2.

(** The named operands of the two [__asm__] statements.  [tmp] and [tmp2]
    are early-clobber outputs and [res] is an output; [res] is written only
    after the last read of [i] and [len], so giving each operand a register
    of its own loses nothing. *)
Inductive operand : Type := tmp | tmp2 | res | i | len.

#[global] Instance operand_eq_dec : EqDecision operand.
Proof. solve_decision. Defined.

(** The condition codes and instructions the two statements use, on the
    32-bit [w] views of the registers.  A branch names a numeric local label
    and always looks forward ([2f], [3f]). *)
Inductive cond : Type := EQ | LS | LE.

Inductive insn : Type :=
| cmp (n m : operand)
| cmn (n : operand) (imm : Z)
| cset (d : operand) (c : cond)
| orr (d n m : operand)
| mov (d : operand) (imm : Z)
| b (l : nat)
| b_cond (c : cond) (l : nat)
| cbnz (n : operand) (l : nat)
| local_label (l : nat).

(** The condition flags of the processor. *)
Record flags : Type := mkFlags {
  flag_N : bool;
  flag_Z : bool;
  flag_C : bool;
  flag_V : bool
}.

Record machine : Type := mkMachine {
  regs : operand -> Z;
  nzcv : flags
}.

(** A 32-bit register holds a number below [2 ^ 32]; [signed] reads it in
    two's complement. *)
Definition wrap (z : Z) : Z := z mod 2 ^ 32.

Definition signed (z : Z) : Z := if z <? 2 ^ 31 then z else z - 2 ^ 32.

Definition in_int32 (z : Z) : bool := (- 2 ^ 31 <=? z) && (z <? 2 ^ 31).

(** The flags a flag-setting subtraction [x - y] leaves ([cmp]): negative,
    zero, carry (no borrow) and signed overflow. *)
Definition subs_flags (x y : Z) : flags :=
  mkFlags (2 ^ 31 <=? wrap (x - y))
          (wrap (x - y) =? 0)
          (y <=? x)
          (negb (in_int32 (signed x - signed y))).

(** The flags a flag-setting addition [x + y] leaves ([cmn]). *)
Definition adds_flags (x y : Z) : flags :=
  mkFlags (2 ^ 31 <=? wrap (x + y))
          (wrap (x + y) =? 0)
          (2 ^ 32 <=? x + y)
          (negb (in_int32 (signed x + signed y))).

(** [eq]: Z set.  [ls]: C clear or Z set.  [le]: Z set or N and V differ. *)
Definition holds (c : cond) (f : flags) : bool :=
  match c with
  | EQ => flag_Z f
  | LS => negb (flag_C f) || flag_Z f
  | LE => flag_Z f || negb (eqb (flag_N f) (flag_V f))
  end.

Definition set (d : operand) (v : Z) (m : machine) : machine :=
  mkMachine (fun o => if decide (o = d) then v else regs m o) (nzcv m).

Definition is_label (l : nat) (ins : insn) : bool :=
  match ins with
  | local_label l' => Nat.eqb l l'
  | _ => false
  end.

(** Running a block of instructions to its end.  A taken branch to the
    label [l] skips what follows up to the next definition of [l]
    ([target] is then [Some l]). *)
Fixpoint exec (prog : list insn) (target : option nat) (m : machine)
  : machine :=
  match prog with
  | [] => m
  | ins :: rest =>
      match target with
      | Some l => exec rest (if is_label l ins then None else Some l) m
      | None =>
          match ins with
          | cmp n k =>
              exec rest None
                (mkMachine (regs m) (subs_flags (regs m n) (regs m k)))
          | cmn n imm =>
              exec rest None
                (mkMachine (regs m) (adds_flags (regs m n) (wrap imm)))
          | cset d c =>
              exec rest None (set d (if holds c (nzcv m) then 1 else 0) m)
          | orr d n k =>
              exec rest None (set d (Z.lor (regs m n) (regs m k)) m)
          | mov d imm => exec rest None (set d (wrap imm) m)
          | b l => exec rest (Some l) m
          | b_cond c l =>
              exec rest (if holds c (nzcv m) then Some l else None) m
          | cbnz n l =>
              exec rest (if regs m n =? 0 then None else Some l) m
          | local_label _ => exec rest None m
          end
      end
  end.

(** The assembly of [testBranch1]. *)
Definition testBranch1_asm : list insn :=
  [ cmp len i;
    b_cond LS 2;
    mov res 1;
    b 3;
    local_label 2;
    mov res 2;
    local_label 3 ].

(** The assembly of [testBranch3]. *)
Definition testBranch3_asm : list insn :=
  [ cmn i 1;
    cset tmp EQ;
    cmp len i;
    cset tmp2 LE;
    orr tmp tmp tmp2;
    cbnz tmp 2;
    local_label 1;
    mov res 1;
    b 3;
    local_label 2;
    mov res 2;
    local_label 3 ].

(** The machine on entry to a statement: the inputs [i] and [len] hold the
    arguments; the other operands and the flags hold whatever was there
    [before]. *)
Definition entry (before : machine) (vi vlen : Z) : machine :=
  set i (wrap vi) (set len (wrap vlen) before).

(** [testBranch1] and [testBranch3]: the statement runs and [res] is
    returned as an [int32_t]. *)
Definition testBranch1 (before : machine) (vi vlen : Z) : Z :=
  signed (regs (exec testBranch1_asm None (entry before vi vlen)) res).

Definition testBranch3 (before : machine) (vi vlen : Z) : Z :=
  signed (regs (exec testBranch3_asm None (entry before vi vlen)) res).

End TestASM.

(** ** Cpp/LowLevelInterpreter.cpp: the label macros *)

Module LLInt.

(** What the preprocessor tests in the macros below: [CPU(...)],
    [OS(DARWIN)], [COMPILER(CLANG)] and [ENABLE(OFFLINE_ASM_ALT_ENTRY)]. *)
Record Config : Type := mkConfig {
  cpu_arm_thumb2 : bool;
  cpu_arm64 : bool;
  cpu_x86_64 : bool;
  cpu_riscv64 : bool;
  os_darwin : bool;
  compiler_clang : bool;
  enable_offline_asm_alt_entry : bool
}.

Definition nl : string := Directives.nl.

Definition double_quote : string := String "034" "".

Section Macros.

Variable cfg : Config.

(** The macros of [InlineASM.h], which is not part of the sources, and the
    text of [WTF_FATAL_CRASH_CODE]. *)
Variables SYMBOL_STRING HIDE_SYMBOL THUMB_FUNC_PARAM : string -> string.
Variable WTF_FATAL_CRASH_CODE : string.

Definition OFFLINE_ASM_BEGIN_SPACER : string :=
  if cpu_arm_thumb2 cfg then "bkpt #0" +:+ nl
  else if cpu_arm64 cfg then "brk #" +:+ WTF_FATAL_CRASH_CODE +:+ nl
  else if cpu_x86_64 cfg then "int3" +:+ nl
  else ".int 0xbadbeef0" +:+ nl.

Definition OFFLINE_ASM_NO_ALT_ENTRY_DIRECTIVE (label : string) : string := "".

Definition OFFLINE_ASM_ALT_ENTRY_DIRECTIVE (label : string) : string :=
  Directives.OFFLINE_ASM_ALT_ENTRY_DIRECTIVE
    (compiler_clang cfg && os_darwin cfg && enable_offline_asm_alt_entry cfg)
    (SYMBOL_STRING label).

Definition OFFLINE_ASM_TEXT_SECTION : string :=
  Directives.OFFLINE_ASM_TEXT_SECTION (os_darwin cfg).

Definition OFFLINE_ASM_GLOBAL_LABEL_IMPL (label : string)
    (ALT_ENTRY : string -> string) (ALIGNMENT : string)
    (VISIBILITY : string -> string) : string :=
  if cpu_arm_thumb2 cfg then
    OFFLINE_ASM_TEXT_SECTION
    +:+ ALIGNMENT
    +:+ ALT_ENTRY label
    +:+ ".globl " +:+ SYMBOL_STRING label +:+ nl
    +:+ VISIBILITY label +:+ nl
    +:+ ".thumb" +:+ nl
    +:+ ".thumb_func " +:+ THUMB_FUNC_PARAM label +:+ nl
    +:+ SYMBOL_STRING label +:+ ":" +:+ nl
  else if cpu_riscv64 cfg then
    OFFLINE_ASM_TEXT_SECTION
    +:+ ALIGNMENT
    +:+ ALT_ENTRY label
    +:+ ".globl " +:+ SYMBOL_STRING label +:+ nl
    +:+ ".attribute arch, " +:+ double_quote +:+ "rv64gc" +:+ double_quote
    +:+ nl
    +:+ VISIBILITY label +:+ nl
    +:+ SYMBOL_STRING label +:+ ":" +:+ nl
  else
    OFFLINE_ASM_TEXT_SECTION
    +:+ ALIGNMENT
    +:+ ALT_ENTRY label
    +:+ ".globl " +:+ SYMBOL_STRING label +:+ nl
    +:+ VISIBILITY label +:+ nl
    +:+ SYMBOL_STRING label +:+ ":" +:+ nl.

Definition OFFLINE_ASM_GLOBAL_LABEL (label : string) : string :=
  OFFLINE_ASM_GLOBAL_LABEL_IMPL label OFFLINE_ASM_ALT_ENTRY_DIRECTIVE
    Directives.OFFLINE_ASM_ALIGN4B HIDE_SYMBOL.

(** The text [OFFLINE_ASM_BEGIN] opens the [asm] statement with. *)
Definition OFFLINE_ASM_BEGIN : string :=
  OFFLINE_ASM_GLOBAL_LABEL_IMPL "jsc_llint_begin"
    OFFLINE_ASM_NO_ALT_ENTRY_DIRECTIVE Directives.OFFLINE_ASM_ALIGN4B
    HIDE_SYMBOL
  +:+ OFFLINE_ASM_BEGIN_SPACER.

End Macros.

End LLInt.

(** ** Rendering of sequences *)

Section Rendering.

Lemma append_cons (c : ascii) (s t : string) :
  String c s +:+ t = String c (s +:+ t).
Proof. reflexivity. Qed.

Lemma append_nil_r (s : string) : s +:+ "" = s.
Proof.
  induction s as [|c s IH]; [reflexivity|].
  now rewrite append_cons, IH.
Qed.

Lemma append_assoc (a b c : string) : (a +:+ b) +:+ c = a +:+ (b +:+ c).
Proof.
  induction a as [|x a IH]; [reflexivity|].
  now rewrite !append_cons, IH.
Qed.

Lemma concat_empty_cons (s : string) (l : list string) :
  String.concat "" (s :: l) = s +:+ String.concat "" l.
Proof. destruct l; simpl; [now rewrite append_nil_r | reflexivity]. Qed.

Lemma generate_all_cons (c : Generator) (codes : list Generator) :
  generate_all (c :: codes) = generate c +:+ generate_all codes.
Proof. unfold generate_all. rewrite map_cons. apply concat_empty_cons. Qed.

Lemma generate_all_app (xs ys : list Generator) :
  generate_all (xs ++ ys) = generate_all xs +:+ generate_all ys.
Proof.
  induction xs as [|x xs IH]; [reflexivity|].
  rewrite <- app_comm_cons, !generate_all_cons, IH.
  now rewrite append_assoc.
Qed.

(** The loop of [SequenceGenerator::generate] from any accumulated
    [result]. *)
Lemma generate_loop (codes : list Generator) (result : string) :
  fold_left (fun result code => result +:+ generate code) codes result
  = result +:+ generate_all codes.
Proof.
  revert result.
  induction codes as [|c codes IH]; intros result.
  - simpl. now rewrite append_nil_r.
  - rewrite generate_all_cons. simpl. rewrite IH. apply append_assoc.
Qed.

Lemma generate_seq (codes : list Generator) :
  generate (seq codes) = generate_all codes.
Proof. simpl. now rewrite generate_loop. Qed.

End Rendering.

(** C1: rendering the sequence node built from [s1] and [s2] gives the
    rendering of [s1] followed directly by the rendering of [s2]: nothing is
    put between them, before them or after them. *)
Theorem seq_pair_renders_concatenation (s1 s2 : Generator) :
  generate (seq [s1; s2]) = generate s1 +:+ generate s2.
Proof.
  rewrite generate_seq, !generate_all_cons.
  unfold generate_all. simpl. now rewrite append_nil_r.
Qed.

(** ** Collection scopes *)

Section ScopeProperties.

Import Scopes.

(** The constructor never returns: whatever the bound on the depth of calls,
    it is reached. *)
Lemma CodeCollectionScope_ctor_diverges (fuel : nat) (this : positive)
    (w : World) :
  CodeCollectionScope_ctor fuel this w = None.
Proof.
  revert this w.
  induction fuel as [|fuel IH]; intros this w; [reflexivity|].
  simpl. now rewrite IH.
Qed.

(** What the destructor does, by the entries of the stack: it exits with
    status 1 at the first entry that is not [this], and runs into [top()] of
    an empty stack if there is none. *)
Lemma destroy_scope_outcome (this : positive)
    (objs : gmap positive (list Generator)) (stack : list positive) :
  destroy_scope this objs stack
  = if existsb (fun p => bool_decide (p <> this)) stack
    then Exits 1 else Undefined.
Proof.
  induction stack as [|top rest IH]; [reflexivity|].
  simpl. destruct (decide (top <> this)) as [Hne|Heq].
  - now rewrite bool_decide_eq_true_2.
  - rewrite bool_decide_eq_false_2 by assumption.
    rewrite IH. simpl.
    destruct (existsb _ rest); reflexivity.
Qed.

End ScopeProperties.

(** C2: the scenario stops at its first step.  Constructing the outer
    scope from the initial state, with no object and an empty stack, never
    returns, whatever the bound on the depth of constructor calls: no scope
    is ever pushed, so nothing is popped or finalized after it. *)
Theorem first_scope_push_never_returns (fuel : nat) :
  Scopes.CodeCollectionScope_ctor fuel 1 (Scopes.mkWorld ∅ []) = None.
Proof. apply CodeCollectionScope_ctor_diverges. Qed.

(** C3: in every state of the stack, destroying a scope that is not at the
    top never returns; whenever the stack has a top, the destructor ends the
    process with the non-zero status 1. *)
Theorem pop_of_non_top_scope_exits (this : positive) (w : Scopes.World) :
  head (Scopes.s_scopes w) <> Some this ->
  (forall w', Scopes.CodeCollectionScope_dtor this w <> Returns w')
  /\ (forall top : positive,
        head (Scopes.s_scopes w) = Some top ->
        Scopes.CodeCollectionScope_dtor this w = Exits 1 /\ 1 <> 0).
Proof.
  intros Hne. unfold Scopes.CodeCollectionScope_dtor.
  destruct (Scopes.s_scopes w) as [|top' rest]; simpl in *.
  - split; [discriminate | intros top [=]].
  - destruct (decide (top' <> this)) as [_|Heq].
    + split; [discriminate | intros top _; split; [reflexivity | lia]].
    + exfalso. apply Hne. f_equal. now destruct (decide (top' = this)).
Qed.

Lemma pop_of_non_top_scope_exits_witness :
  head (Scopes.s_scopes nested_scopes) = Some 2%positive
  /\ Scopes.CodeCollectionScope_dtor 1 nested_scopes = Exits 1.
Proof.
  split; [reflexivity|].
  exact (proj1 (proj2 (pop_of_non_top_scope_exits 1 nested_scopes
                         ltac:(discriminate)) 2%positive eq_refl)).
Defined.

(** ** Labels *)

(** C4, as the code has it: a label with every attribute at its default
    renders to exactly its name.  Nothing is added to it, so the text holds
    a directive or a colon only where the name itself spells one. *)
Theorem default_label_renders_name (symbol : string) :
  generate (label symbol) = symbol
  /\ forall directive : string,
       contains directive (generate (label symbol)) = contains directive symbol.
Proof. split; [reflexivity | intros directive; reflexivity]. Qed.

(** C4, as stated, fails: the default label [foo] renders to [foo].  It
    holds no alignment and no alternate-entry directive, but no section
    directive either, and no colon, so no symbol definition [foo:]. *)
Lemma default_label_counterexample :
  generate (label "foo") = "foo"
  /\ contains Directives.OFFLINE_ASM_ALIGN4B (generate (label "foo")) = false
  /\ contains (Directives.OFFLINE_ASM_ALT_ENTRY_DIRECTIVE true "foo")
       (generate (label "foo")) = false
  /\ contains (Directives.OFFLINE_ASM_TEXT_SECTION false)
       (generate (label "foo")) = false
  /\ contains (Directives.OFFLINE_ASM_TEXT_SECTION true)
       (generate (label "foo")) = false
  /\ contains ":" (generate (label "foo")) = false
  /\ contains (Directives.symbol_definition "foo")
       (generate (label "foo")) = false.
Proof. repeat split. Qed.

Section BuilderProperties.

Lemma call_builder_idempotent (b : Builder) (l : Label) :
  call_builder b (call_builder b l) = call_builder b l.
Proof. destruct b; reflexivity. Qed.

Lemma call_builder_commute (b1 b2 : Builder) (l : Label) :
  method b1 <> method b2 ->
  call_builder b1 (call_builder b2 l) = call_builder b2 (call_builder b1 l).
Proof. destruct b1, b2; intros H; try reflexivity; now destruct H. Qed.

Lemma call_builder_name (b : Builder) (l : Label) :
  name (call_builder b l) = name l.
Proof. destruct b; reflexivity. Qed.

Lemma configure_name (calls : list Builder) :
  forall l : Label, name (configure calls l) = name l.
Proof.
  induction calls as [|b calls IH]; intros l; [reflexivity|].
  unfold configure. simpl. fold (configure calls (call_builder b l)).
  now rewrite IH, call_builder_name.
Qed.

Lemma configure_cons (b : Builder) (calls : list Builder) (l : Label) :
  configure (b :: calls) l = configure calls (call_builder b l).
Proof. reflexivity. Qed.

(** Chains of calls of pairwise different methods that differ only in
    their order leave the label in the same state. *)
Lemma configure_permutation (calls calls' : list Builder) :
  calls ≡ₚ calls' ->
  NoDup (method <$> calls) ->
  forall l : Label, configure calls l = configure calls' l.
Proof.
  induction 1 as [|b xs ys Hp IH|b1 b2 xs|xs ys zs Hxy IHxy Hyz IHyz];
    intros Hnd l.
  - reflexivity.
  - rewrite !configure_cons. apply IH.
    rewrite fmap_cons in Hnd. now apply NoDup_cons in Hnd.
  - rewrite !configure_cons. f_equal. apply call_builder_commute.
    rewrite !fmap_cons in Hnd. apply NoDup_cons in Hnd as [Hnin _].
    intros Heq. apply Hnin. rewrite Heq. apply list_elem_of_here.
  - rewrite IHxy by assumption. apply IHyz.
    now rewrite <- Hxy.
Qed.

End BuilderProperties.

(** C7: each builder call is idempotent; chains of calls of pairwise
    different methods that differ only in their order leave the label with
    the same attributes, and so with the same rendering. *)
Theorem label_builders_idempotent_any_order (calls calls' : list Builder)
    (l : Label) :
  NoDup (method <$> calls) ->
  calls ≡ₚ calls' ->
  (forall b : Builder, call_builder b (call_builder b l) = call_builder b l)
  /\ configure calls l = configure calls' l
  /\ generate (configure calls l) = generate (configure calls' l).
Proof.
  intros Hnd Hp. split; [|split].
  - intros b. apply call_builder_idempotent.
  - now apply configure_permutation.
  - simpl. now rewrite !configure_name.
Qed.

Lemma label_builders_idempotent_any_order_witness :
  NoDup (method <$> [Global; Aligned 16; Extern; InFile])
  /\ [Global; Aligned 16; Extern; InFile] ≡ₚ [InFile; Extern; Aligned 16; Global]
  /\ configure [Global; Aligned 16; Extern; InFile] (label "entry")
     = configure [InFile; Extern; Aligned 16; Global] (label "entry").
Proof.
  assert (Hnd : NoDup (method <$> [Global; Aligned 16; Extern; InFile]))
    by (apply (bool_decide_unpack _); vm_compute; exact I).
  assert (Hp : [Global; Aligned 16; Extern; InFile]
               ≡ₚ [InFile; Extern; Aligned 16; Global])
    by (apply (Permutation_rev [Global; Aligned 16; Extern; InFile])).
  split; [exact Hnd|]. split; [exact Hp|].
  exact (proj1 (proj2 (label_builders_idempotent_any_order _ _
                         (label "entry") Hnd Hp))).
Defined.

(** ** Instructions *)

Section InstructionProperties.

Import Instr.

Lemma build_all_app (xs ys : list (t * list Generator)) :
  build_all (xs ++ ys)
  = a ← build_all xs; b ← build_all ys; Returns (a ++ b).
Proof.
  induction xs as [|[i args] xs IH]; simpl.
  - destruct (build_all ys); reflexivity.
  - rewrite IH.
    destruct (build i args); simpl; [|reflexivity..].
    destruct (build_all xs); simpl; [|reflexivity..].
    destruct (build_all ys); reflexivity.
Qed.

Lemma generate_instruction (m : string) (operands : list Generator) :
  generate (seq [text m; seq operands; text "32"])
  = m +:+ generate_all operands +:+ "32".
Proof.
  change (generate (seq [text m; seq operands; text "32"]))
    with ((m +:+ generate (seq operands)) +:+ "32").
  now rewrite generate_seq, append_assoc.
Qed.

End InstructionProperties.

(** C5: the constructor [error], with any operands, ends the process with
    status 1 before it returns a node: no node comes back, and whatever was
    to follow in the run is not reached. *)
Theorem error_instruction_exits (operands : list Generator) :
  Instr.build Instr.error operands = Exits 1
  /\ 1 <> 0
  /\ (forall c : Generator, Instr.build Instr.error operands <> Returns c)
  /\ (forall (B : Type) (k : Generator -> Outcome B),
        (Instr.build Instr.error operands ≫= k) = Exits 1)
  /\ (forall rest : list (Instr.t * list Generator),
        Instr.build_all ((Instr.error, operands) :: rest) = Exits 1).
Proof.
  repeat split; try reflexivity; try lia; intros; discriminate.
Qed.

(** ** Address operands *)


(** C9: [move(x0, x1)] renders to [movex0x132], in which [move], [x0] and
    [x1] occur in this order; this is so after any run of instruction
    constructors that returned, however many they were. *)
Theorem move_x0_x1_rendering (prior : list (Instr.t * list Generator))
    (built : list Generator) :
  Instr.build_all prior = Returns built ->
  exists c : Generator,
    Instr.build_all (prior ++ [(Instr.move, [RegGenerator (reg "x0");
                                             RegGenerator (reg "x1")])])
    = Returns (built ++ [c])
    /\ Instr.build Instr.move [RegGenerator (reg "x0"); RegGenerator (reg "x1")]
       = Returns c
    /\ generate c = "movex0x132"
    /\ occur_in_order "move" "x0" "x1" (generate c).
Proof.
  intros H. eexists. split; [|split; [reflexivity|split; [reflexivity|]]].
  - rewrite build_all_app, H. reflexivity.
  - exists "", "", "", "32". reflexivity.
Qed.

Lemma move_x0_x1_rendering_witness :
  Instr.build_all [(Instr.push, [RegGenerator ARM64.t2]);
                   (Instr.ret, [])]
  = Returns [seq [text "push"; seq [RegGenerator ARM64.t2]; text "32"];
             seq [text "ret"; seq []; text "32"]]
  /\ exists c : Generator,
       Instr.build Instr.move [RegGenerator (reg "x0"); RegGenerator (reg "x1")]
       = Returns c
       /\ generate c = "movex0x132".
Proof.
  split; [reflexivity|].
  destruct (move_x0_x1_rendering
              [(Instr.push, [RegGenerator ARM64.t2]); (Instr.ret, [])]
              _ eq_refl) as (c & _ & Hc & Hg & _).
  exists c. split; assumption.
Defined.

(** C10: every constructor of the table but [error] returns, for every
    operand list, a node that renders to the mnemonic, then the operands'
    texts in the order given, then [32]. *)
Theorem instruction_rendering (i : Instr.t) (operands : list Generator) :
  i <> Instr.error ->
  exists c : Generator,
    Instr.build i operands = Returns c
    /\ generate c = mnemonic i +:+ generate_all operands +:+ "32".
Proof.
  intros Hi.
  destruct i; try contradiction;
    (eexists; split; [reflexivity | apply generate_instruction]).
Qed.

Lemma instruction_rendering_witness :
  Instr.subp <> Instr.error
  /\ exists c : Generator,
       Instr.build Instr.subp [RegGenerator ARM64.sp; text ", 16"] = Returns c
       /\ generate c = "subsp, 1632".
Proof.
  split; [discriminate|].
  exact (instruction_rendering Instr.subp
           [RegGenerator ARM64.sp; text ", 16"] ltac:(discriminate)).
Defined.

(** ** The register table *)

Section RegisterProperties.

Import ARM64.

Lemma registers_ok : forallb row_ok registers = true.
Proof. vm_compute. reflexivity. Qed.

Lemma lookup_register_In (table : list (string * Reg)) (n : string) (r : Reg) :
  lookup_register table n = Some r -> In (n, r) table.
Proof.
  induction table as [|[n' r'] table IH]; simpl; [discriminate|].
  destruct (String.eqb n' n) eqn:E.
  - intros [= ->]. apply String.eqb_eq in E as ->. now left.
  - intros H. right. now apply IH.
Qed.

End RegisterProperties.

(** C8: a declared logical name resolves either to a register whose name an
    ARM64 assembler accepts, or, having no such register, to the sentinel
    [invalidGPR], which renders to [invalid], a name no ARM64 register
    has. *)
Theorem unbacked_register_resolves_to_sentinel (logical_name : string)
    (r : Reg) :
  ARM64.resolve logical_name = Some r ->
  (ARM64.is_register_name (generate r) = true /\ r <> ARM64.invalidGPR)
  \/ (r = ARM64.invalidGPR
      /\ generate r = "invalid"
      /\ ARM64.is_register_name (generate r) = false).
Proof.
  intros H. apply lookup_register_In in H.
  pose proof registers_ok as Hall.
  rewrite forallb_forall in Hall. specialize (Hall _ H).
  unfold row_ok in Hall. simpl in Hall.
  apply orb_true_iff in Hall as [Hok|Hbad].
  - left. apply andb_true_iff in Hok as [Hname Hne]. split; [exact Hname|].
    apply negb_true_iff, bool_decide_eq_false in Hne. exact Hne.
  - right. apply andb_true_iff in Hbad as [Hbad Hname].
    apply andb_true_iff in Hbad as [Heq Htext].
    apply bool_decide_eq_true in Heq. apply String.eqb_eq in Htext.
    apply negb_true_iff in Hname. auto.
Qed.

Lemma unbacked_register_resolves_to_sentinel_witness :
  ARM64.resolve "csr10" = Some ARM64.csr10
  /\ ARM64.csr10 = ARM64.invalidGPR
  /\ generate ARM64.csr10 = "invalid"
  /\ ARM64.is_register_name (generate ARM64.csr10) = false.
Proof.
  split; [reflexivity|].
  destruct (unbacked_register_resolves_to_sentinel "csr10" ARM64.csr10
              eq_refl) as [[Hname _]|Hsentinel].
  - discriminate Hname.
  - exact Hsentinel.
Defined.

(** ** Further properties of the emission nodes *)

(** X1: a sequence over two lists of children put end to end renders to
    the text of the sequence over the first followed by the text of the
    sequence over the second; the empty sequence renders to nothing. *)
Theorem seq_append_renders_concatenation (xs ys : list Generator) :
  generate (seq (xs ++ ys)) = generate (seq xs) +:+ generate (seq ys)
  /\ generate (seq []) = "".
Proof.
  split; [|reflexivity].
  now rewrite !generate_seq, generate_all_app.
Qed.

(** X2: nesting does not show in the text: a sequence of sequences renders
    like the one sequence of all their children. *)
Theorem nested_seq_renders_flat (groups : list (list Generator)) :
  generate (seq (seq <$> groups)) = generate (seq (concat groups)).
Proof.
  rewrite !generate_seq.
  induction groups as [|g groups IH]; [reflexivity|].
  rewrite fmap_cons, generate_all_cons, generate_seq. simpl concat.
  now rewrite generate_all_app, IH.
Qed.

(** ** Further properties of labels *)

Section BuilderChains.

Lemma configure_snoc (calls : list Builder) (b : Builder) (l : Label) :
  configure (calls ++ [b]) l = call_builder b (configure calls l).
Proof. unfold configure. now rewrite foldl_snoc. Qed.

End BuilderChains.

(** X3: no chain of builder calls, in any order and with any repetition,
    changes what a label renders to: the text is the name the label was
    made with. *)
Theorem label_rendering_ignores_builders (calls : list Builder)
    (symbol : string) :
  generate (configure calls (label symbol)) = symbol
  /\ forall l : Label, generate (configure calls l) = generate l.
Proof.
  split; [|intros l]; simpl; now rewrite configure_name.
Qed.

(** X4: after a chain of builder calls each of the three flags is set
    exactly if it was set before or its method is among the calls: a flag
    is only ever set, never cleared. *)
Theorem builder_flags_after_chain (calls : list Builder) (l : Label) :
  m_inFile (configure calls l) = m_inFile l || bool_decide (InFile ∈ calls)
  /\ m_global (configure calls l) = m_global l || bool_decide (Global ∈ calls)
  /\ m_extern (configure calls l) = m_extern l || bool_decide (Extern ∈ calls).
Proof.
  induction calls as [|b calls IH] using rev_ind.
  - simpl. now rewrite !orb_false_r.
  - rewrite configure_snoc.
    destruct IH as (Hf & Hg & He).
    assert (Hin : forall x : Builder,
              bool_decide (x ∈ calls ++ [b])
              = bool_decide (x ∈ calls) || bool_decide (x = b)).
    { intros x. apply eq_true_iff_eq.
      rewrite orb_true_iff, !bool_decide_eq_true, elem_of_app,
        list_elem_of_singleton. reflexivity. }
    rewrite !Hin.
    destruct b; simpl; rewrite ?Hf, ?Hg, ?He; repeat split;
      repeat match goal with
        | |- context [bool_decide (?x = ?y)] =>
            first [ rewrite (bool_decide_eq_true_2 (x = y)) by reflexivity
                  | rewrite (bool_decide_eq_false_2 (x = y)) by discriminate ]
        end;
      rewrite ?orb_false_r, ?orb_true_r; reflexivity.
Qed.

(** X5: the alignment after a chain of builder calls is the argument of the
    last [aligned] call in it, and the label's own where the chain has
    none. *)
Theorem alignment_last_call_wins (calls : list Builder) (l : Label) :
  m_alignTo (configure calls l)
  = default (m_alignTo l) (last_alignment calls).
Proof.
  unfold last_alignment.
  induction calls as [|b calls IH] using rev_ind; [reflexivity|].
  rewrite configure_snoc, omap_app.
  destruct b; simpl; rewrite ?app_nil_r; try exact IH.
  now rewrite last_snoc.
Qed.

(** X6: two [aligned] calls with different arguments do not commute: the
    order decides the alignment the label ends with. *)
Theorem aligned_calls_do_not_commute (a b : Z) (l : Label) :
  a <> b ->
  configure [Aligned a; Aligned b] l <> configure [Aligned b; Aligned a] l
  /\ m_alignTo (configure [Aligned a; Aligned b] l) = b
  /\ m_alignTo (configure [Aligned b; Aligned a] l) = a.
Proof.
  intros Hne. split; [|split; reflexivity].
  intros Heq. apply (f_equal m_alignTo) in Heq. simpl in Heq. congruence.
Qed.

Lemma aligned_calls_do_not_commute_witness :
  4 <> 16
  /\ m_alignTo (configure [Aligned 4; Aligned 16] (label "entry")) = 16
  /\ m_alignTo (configure [Aligned 16; Aligned 4] (label "entry")) = 4.
Proof.
  split; [lia|].
  exact (proj2 (aligned_calls_do_not_commute 4 16 (label "entry")
                  ltac:(lia))).
Defined.


(** ** Further properties of collection scopes *)

(** X7: constructing a [CodeCollectionScope] never completes: at no depth
    of constructor calls does the constructor return or exit, from any
    state and for any object. *)
Theorem scope_constructor_never_returns (this : positive) (w : Scopes.World) :
  ~ exists (fuel : nat) (outcome : Outcome Scopes.World),
      Scopes.CodeCollectionScope_ctor fuel this w = Some outcome.
Proof.
  intros (fuel & outcome & H).
  now rewrite CodeCollectionScope_ctor_diverges in H.
Qed.

(** X8: the destructor never returns, for any scope and in any state, the
    scope at the top included: popping the top destroys its owning pointer,
    which runs the destructor of the same object again.  The process exits
    with status 1 exactly if the stack holds an entry other than the scope
    destroyed, and runs into [top()] of an empty stack exactly if it holds
    none. *)
Theorem scope_destructor_never_returns (this : positive) (w : Scopes.World) :
  (forall w', Scopes.CodeCollectionScope_dtor this w <> Returns w')
  /\ (Scopes.CodeCollectionScope_dtor this w = Exits 1
      <-> exists other, other ∈ Scopes.s_scopes w /\ other <> this)
  /\ (Scopes.CodeCollectionScope_dtor this w = Undefined
      <-> forall p, p ∈ Scopes.s_scopes w -> p = this).
Proof.
  unfold Scopes.CodeCollectionScope_dtor. rewrite destroy_scope_outcome.
  destruct (existsb _ (Scopes.s_scopes w)) eqn:E.
  - apply existsb_exists in E as (other & Hin & Hne).
    apply bool_decide_eq_true in Hne. apply list_elem_of_In in Hin.
    split; [discriminate|]. split.
    + split; [intros _; exists other; auto | reflexivity].
    + split; [discriminate|]. intros Hall. now apply Hall in Hin.
  - split; [discriminate|]. split.
    + split; [discriminate|]. intros (other & Hin & Hne).
      apply list_elem_of_In in Hin.
      assert (Hex : existsb (fun p => bool_decide (p <> this))
                      (Scopes.s_scopes w) = true).
      { apply existsb_exists. exists other. split; [exact Hin|].
        now apply bool_decide_eq_true. }
      congruence.
    + split; [|reflexivity]. intros _ p Hin.
      apply list_elem_of_In in Hin.
      destruct (decide (p = this)) as [Heq|Hne]; [exact Heq|].
      assert (Hex : existsb (fun p => bool_decide (p <> this))
                      (Scopes.s_scopes w) = true).
      { apply existsb_exists. exists p. split; [exact Hin|].
        now apply bool_decide_eq_true. }
      congruence.
Qed.

(** X9: scopes going out of scope in order do not get past the first
    destructor: with another scope below the top one, destroying the top
    scope ends the process with status 1, whatever was to be destroyed after
    it. *)
Theorem destroy_in_stack_order_exits (top below : positive)
    (later rest : list positive) (objs : gmap positive (list Generator)) :
  top <> below ->
  destroy_all (top :: later) (Scopes.mkWorld objs (top :: below :: rest))
  = Exits 1.
Proof.
  intros Hne. simpl. unfold Scopes.CodeCollectionScope_dtor. simpl.
  destruct (decide (top <> top)) as [Hbad|_]; [contradiction|].
  destruct (decide (below <> top)) as [_|Heq]; [reflexivity|].
  exfalso. apply Hne. now destruct (decide (below = top)).
Qed.

Lemma destroy_in_stack_order_exits_witness :
  2%positive <> 1%positive
  /\ destroy_all [2; 1]%positive nested_scopes = Exits 1.
Proof.
  split; [discriminate|].
  exact (destroy_in_stack_order_exits 2 1 [1%positive] []
           (Scopes.objects nested_scopes) ltac:(discriminate)).
Defined.

(** ** Further properties of the instruction table *)

Section RunProperties.

Import Instr.

Lemma build_returns (i : t) (operands : list Generator) :
  i <> error ->
  build i operands = Returns (seq [text (mnemonic i); seq operands; text "32"]).
Proof. intros Hi. destruct i; try contradiction; reflexivity. Qed.

Lemma build_all_cons_returns (i : t) (operands : list Generator)
    (rest : list (t * list Generator)) (c : Generator)
    (nodes : list Generator) :
  build i operands = Returns c ->
  build_all rest = Returns nodes ->
  build_all ((i, operands) :: rest) = Returns (c :: nodes).
Proof. intros Hc Hr. simpl. now rewrite Hc, Hr. Qed.

End RunProperties.

(** X10: a run of constructor calls none of which is [error] returns one
    node for each call, and the sequence of these nodes renders to the
    instructions' texts (mnemonic, operands, [32]) one after the other, in
    call order. *)
Theorem run_without_error_renders_all
    (calls : list (Instr.t * list Generator)) :
  (Instr.error ∉ calls.*1) ->
  exists nodes : list Generator,
    Instr.build_all calls = Returns nodes
    /\ length nodes = length calls
    /\ generate (seq nodes) = String.concat "" (map instruction_text calls).
Proof.
  induction calls as [|[i operands] calls IH]; intros Hno.
  - exists []. repeat split.
  - rewrite fmap_cons in Hno. apply not_elem_of_cons in Hno as [Hi Hrest].
    destruct (IH Hrest) as (nodes & Hrun & Hlen & Htext).
    exists (seq [text (mnemonic i); seq operands; text "32"] :: nodes).
    split; [|split].
    + apply build_all_cons_returns; [|exact Hrun].
      apply build_returns. intros ->. now apply Hi.
    + simpl. now rewrite Hlen.
    + rewrite generate_seq, generate_all_cons, generate_instruction.
      rewrite generate_seq in Htext. rewrite Htext.
      rewrite map_cons, concat_empty_cons. reflexivity.
Qed.

Lemma run_without_error_renders_all_witness :
  (Instr.error ∉ [(Instr.push, [RegGenerator ARM64.cfr]);
                 (Instr.move, [RegGenerator ARM64.sp; RegGenerator ARM64.cfr]);
                 (Instr.ret, [])].*1)
  /\ exists nodes : list Generator,
       Instr.build_all [(Instr.push, [RegGenerator ARM64.cfr]);
                        (Instr.move,
                          [RegGenerator ARM64.sp; RegGenerator ARM64.cfr]);
                        (Instr.ret, [])] = Returns nodes
       /\ generate (seq nodes) = "pushx2932movespx2932ret32".
Proof.
  assert (Hno : Instr.error ∉ [(Instr.push, [RegGenerator ARM64.cfr]);
                 (Instr.move, [RegGenerator ARM64.sp; RegGenerator ARM64.cfr]);
                 (Instr.ret, [])].*1)
    by (apply (bool_decide_unpack _); vm_compute; exact I).
  split; [exact Hno|].
  destruct (run_without_error_renders_all _ Hno) as (nodes & Hrun & _ & Htext).
  exists nodes. split; [exact Hrun | exact Htext].
Defined.

(** X11: a run of constructor calls with a call of [error] anywhere in it
    ends the process with status 1 and returns no node, whatever the other
    calls and their operands are. *)
Theorem run_with_error_exits (calls : list (Instr.t * list Generator)) :
  (Instr.error ∈ calls.*1) ->
  Instr.build_all calls = Exits 1.
Proof.
  induction calls as [|[i operands] calls IH]; intros Hin.
  - now apply elem_of_nil in Hin.
  - destruct (decide (i = Instr.error)) as [->|Hi]; [reflexivity|].
    rewrite fmap_cons in Hin. apply elem_of_cons in Hin as [Heq|Hin].
    + simpl in Heq. congruence.
    + simpl. rewrite (build_returns i operands Hi). simpl.
      now rewrite (IH Hin).
Qed.

Lemma run_with_error_exits_witness :
  (Instr.error ∈ [(Instr.push, [RegGenerator ARM64.cfr]);
                 (Instr.error, []);
                 (Instr.ret, [])].*1)
  /\ Instr.build_all [(Instr.push, [RegGenerator ARM64.cfr]);
                      (Instr.error, []);
                      (Instr.ret, [])] = Exits 1.
Proof.
  assert (Hin : Instr.error ∈ [(Instr.push, [RegGenerator ARM64.cfr]);
                 (Instr.error, []);
                 (Instr.ret, [])].*1)
    by (apply (bool_decide_unpack _); vm_compute; exact I).
  split; [exact Hin|].
  exact (run_with_error_exits _ Hin).
Defined.

(** ** Further properties of the register table *)

Section TableProperties.

Import ARM64.

Lemma sentinel_rows_are_csr10 :
  forallb (fun row : string * Reg =>
             negb (bool_decide (row.2 = invalidGPR)) || String.eqb row.1 "csr10")
    registers = true.
Proof. vm_compute. reflexivity. Qed.

End TableProperties.

(** X12: [csr10] is the one logical name without a register: a name
    resolves to the sentinel [invalidGPR] exactly if it is [csr10]. *)
Theorem only_csr10_is_unbacked (logical_name : string) :
  ARM64.resolve logical_name = Some ARM64.invalidGPR
  <-> logical_name = "csr10".
Proof.
  split.
  - intros H. apply lookup_register_In in H.
    pose proof sentinel_rows_are_csr10 as Hall.
    rewrite forallb_forall in Hall. specialize (Hall _ H). simpl in Hall.
    now apply String.eqb_eq in Hall.
  - intros ->. reflexivity.
Qed.


(** ** Cpp/test.cc: [call_test] *)

Section Bits.

Lemma lor_disjoint (a b n : Z) :
  0 <= n -> 0 <= a < 2 ^ n -> Z.lor a (b * 2 ^ n) = a + b * 2 ^ n.
Proof.
  intros Hn Ha.
  assert (Hland : Z.land a (b * 2 ^ n) = 0).
  { apply Z.bits_inj'. intros k Hk. rewrite Z.land_spec, Z.bits_0.
    destruct (Z.lt_ge_cases k n) as [Hlt|Hge].
    - rewrite Z.mul_pow2_bits_low by lia. apply andb_false_r.
    - rewrite <- (Z.mod_small a (2 ^ n)) by lia.
      rewrite Z.mod_pow2_bits_high by lia. reflexivity. }
  rewrite (Z.add_nocarry_lxor _ _ Hland). symmetry. now apply Z.lxor_lor.
Qed.

Lemma lor_bound (a b n : Z) :
  0 <= n -> 0 <= a < 2 ^ n -> 0 <= b < 2 ^ n -> 0 <= Z.lor a b < 2 ^ n.
Proof.
  intros Hn Ha Hb.
  assert (H : Z.lor a b = Z.lor a b mod 2 ^ n).
  { apply Z.bits_inj'. intros k Hk.
    destruct (Z.lt_ge_cases k n) as [Hlt|Hge].
    - now rewrite Z.mod_pow2_bits_low by lia.
    - rewrite Z.mod_pow2_bits_high by lia. rewrite Z.lor_spec.
      rewrite <- (Z.mod_small a (2 ^ n)), <- (Z.mod_small b (2 ^ n)) by lia.
      now rewrite !Z.mod_pow2_bits_high by lia. }
  rewrite H. apply Z.mod_pos_bound. lia.
Qed.

Lemma land_lor_absorb (x c : Z) : Z.land (Z.lor x c) c = c.
Proof.
  apply Z.bits_inj'. intros k Hk. rewrite Z.land_spec, Z.lor_spec.
  destruct (Z.testbit x k), (Z.testbit c k); reflexivity.
Qed.

Lemma shifted_uint32 (arg2 : Z) :
  CppTest.uint32_t (Z.shiftl arg2 16) = (arg2 mod 2 ^ 16) * 2 ^ 16.
Proof.
  unfold CppTest.uint32_t. rewrite Z.shiftl_mul_pow2 by lia.
  change (2 ^ 32) with (2 ^ 16 * 2 ^ 16).
  now rewrite Z.mul_mod_distr_r by lia.
Qed.

End Bits.

(** X13: for a first argument below [2 ^ 16] and a second below [2 ^ 8],
    [call_test] packs them without loss under the tag [0x42]: the result is
    [arg1 + arg2 * 2 ^ 16 + 0x42 * 2 ^ 24], and its low 16 bits, its next 8
    bits and its top byte give back [arg1], [arg2] and [0x42]. *)
Theorem call_test_unpacks (show : Z -> string) (arg1 arg2 : Z) :
  0 <= arg1 < 2 ^ 16 ->
  0 <= arg2 < 2 ^ 8 ->
  (CppTest.call_test show arg1 arg2).2 = arg1 + arg2 * 2 ^ 16 + 0x42 * 2 ^ 24
  /\ Z.land (CppTest.call_test show arg1 arg2).2 0xFFFF = arg1
  /\ Z.land (Z.shiftr (CppTest.call_test show arg1 arg2).2 16) 0xFF = arg2
  /\ Z.shiftr (CppTest.call_test show arg1 arg2).2 24 = 0x42.
Proof.
  intros H1 H2.
  assert (Hv : (CppTest.call_test show arg1 arg2).2
               = arg1 + arg2 * 2 ^ 16 + 0x42 * 2 ^ 24).
  { unfold CppTest.call_test. simpl snd.
    rewrite shifted_uint32, Z.shiftl_0_r.
    unfold CppTest.uint32_t.
    rewrite (Z.mod_small arg1) by lia. rewrite (Z.mod_small arg2) by lia.
    rewrite (Z.shiftl_mul_pow2 0x42 24) by lia.
    rewrite (lor_disjoint arg1 arg2 16) by lia.
    rewrite (lor_disjoint (arg1 + arg2 * 2 ^ 16) 0x42 24) by lia.
    reflexivity. }
  rewrite Hv. split; [reflexivity|].
  change 0xFFFF with (Z.ones 16). change 0xFF with (Z.ones 8).
  rewrite !Z.land_ones, !Z.shiftr_div_pow2 by lia.
  change (2 ^ 16) with 65536. change (2 ^ 24) with 16777216.
  change (2 ^ 8) with 256 in *. change (2 ^ 16) with 65536 in H1.
  repeat split; Z.div_mod_to_equations; lia.
Qed.

Lemma call_test_unpacks_witness :
  (CppTest.call_test (fun _ => "") 5 7).2 = 0x42070005
  /\ Z.land (CppTest.call_test (fun _ => "") 5 7).2 0xFFFF = 5
  /\ Z.land (Z.shiftr (CppTest.call_test (fun _ => "") 5 7).2 16) 0xFF = 7.
Proof.
  destruct (call_test_unpacks (fun _ => "") 5 7 ltac:(lia) ltac:(lia))
    as (Hv & Hlo & Hmid & _).
  split; [exact Hv|]. split; [exact Hlo | exact Hmid].
Defined.

(** X14: for any two [uint32_t] arguments the result of [call_test] is a
    [uint32_t] again; the upper 16 bits of the second argument are shifted
    out, so only [arg2 mod 2 ^ 16] counts; and the bits of the tag
    [0x42000000] are always set in the result. *)
Theorem call_test_wraps (show : Z -> string) (arg1 arg2 : Z) :
  0 <= arg1 < 2 ^ 32 ->
  0 <= arg2 < 2 ^ 32 ->
  0 <= (CppTest.call_test show arg1 arg2).2 < 2 ^ 32
  /\ (CppTest.call_test show arg1 arg2).2
     = (CppTest.call_test show arg1 (arg2 mod 2 ^ 16)).2
  /\ Z.land (CppTest.call_test show arg1 arg2).2 0x42000000 = 0x42000000.
Proof.
  intros H1 H2. unfold CppTest.call_test. simpl snd.
  rewrite !shifted_uint32, Z.shiftl_0_r, Z.mod_mod by lia.
  unfold CppTest.uint32_t. rewrite (Z.mod_small arg1) by lia.
  split; [|split].
  - apply lor_bound; [lia| |vm_compute; split; [discriminate|reflexivity]].
    apply lor_bound; [lia|lia|].
    pose proof (Z.mod_pos_bound arg2 (2 ^ 16) ltac:(lia)).
    change (2 ^ 32) with (2 ^ 16 * 2 ^ 16). nia.
  - reflexivity.
  - change (Z.shiftl 0x42 24) with 0x42000000. apply land_lor_absorb.
Qed.

Lemma call_test_wraps_witness :
  (CppTest.call_test (fun _ => "") 5 0x10007).2
  = (CppTest.call_test (fun _ => "") 5 7).2.
Proof.
  destruct (call_test_wraps (fun _ => "") 5 0x10007 ltac:(lia) ltac:(lia))
    as (_ & Heq & _).
  exact Heq.
Defined.

(** ** TestASM/test.cc: the four branch functions *)

Section Flags.

Import TestASM.

Lemma wrap_range (z : Z) : 0 <= wrap z < 2 ^ 32.
Proof. apply Z.mod_pos_bound. lia. Qed.

Lemma wrap_int32 (z : Z) :
  - 2 ^ 31 <= z < 2 ^ 31 ->
  wrap z = if z <? 0 then z + 2 ^ 32 else z.
Proof.
  intros H. unfold wrap.
  destruct (Z.ltb_spec z 0); Z.div_mod_to_equations; lia.
Qed.

Lemma signed_wrap (z : Z) : - 2 ^ 31 <= z < 2 ^ 31 -> signed (wrap z) = z.
Proof.
  intros H. rewrite (wrap_int32 z H). unfold signed.
  destruct (Z.ltb_spec z 0);
    [destruct (Z.ltb_spec (z + 2 ^ 32) (2 ^ 31))
    |destruct (Z.ltb_spec z (2 ^ 31))]; lia.
Qed.

(** After [cmp x, y], [ls] holds exactly if [x <= y] as unsigned numbers. *)
Lemma ls_after_cmp (x y : Z) :
  0 <= x < 2 ^ 32 -> 0 <= y < 2 ^ 32 ->
  holds LS (subs_flags x y) = (x <=? y).
Proof.
  intros Hx Hy. unfold holds, subs_flags, wrap. simpl.
  destruct (Z.leb_spec y x), (Z.leb_spec x y),
    (Z.eqb_spec ((x - y) mod 2 ^ 32) 0);
    simpl; try reflexivity; exfalso; Z.div_mod_to_equations; lia.
Qed.

(** After [cmp x, y], [le] holds exactly if [x <= y] as signed numbers. *)
Lemma le_after_cmp (x y : Z) :
  - 2 ^ 31 <= x < 2 ^ 31 -> - 2 ^ 31 <= y < 2 ^ 31 ->
  holds LE (subs_flags (wrap x) (wrap y)) = (x <=? y).
Proof.
  intros Hx Hy. unfold holds, subs_flags. simpl.
  rewrite !signed_wrap by assumption.
  rewrite (wrap_int32 x Hx), (wrap_int32 y Hy). unfold in_int32, wrap.
  destruct (Z.ltb_spec x 0), (Z.ltb_spec y 0);
    match goal with |- context [?a mod 2 ^ 32] => set (r := a mod 2 ^ 32);
      assert (Hr : r = a mod 2 ^ 32) by reflexivity; clearbody r end;
    destruct (Z.leb_spec x y), (Z.eqb_spec r 0), (Z.leb_spec (2 ^ 31) r),
      (Z.leb_spec (- 2 ^ 31) (x - y)), (Z.ltb_spec (x - y) (2 ^ 31));
    simpl; try reflexivity; exfalso; Z.div_mod_to_equations; lia.
Qed.

(** After [cmn x, #1], [eq] holds exactly if [x] is -1. *)
Lemma eq_after_cmn_1 (x : Z) :
  - 2 ^ 31 <= x < 2 ^ 31 ->
  holds EQ (adds_flags (wrap x) (wrap 1)) = (x =? -1).
Proof.
  intros Hx. unfold holds, adds_flags. simpl.
  rewrite (wrap_int32 x Hx). change (wrap 1) with 1. unfold wrap.
  destruct (Z.ltb_spec x 0);
    match goal with |- context [?a mod 2 ^ 32] => set (r := a mod 2 ^ 32);
      assert (Hr : r = a mod 2 ^ 32) by reflexivity; clearbody r end;
    destruct (Z.eqb_spec x (-1)), (Z.eqb_spec r 0);
    try reflexivity; exfalso; Z.div_mod_to_equations; lia.
Qed.

Lemma exec_testBranch1 (m : machine) :
  regs (exec testBranch1_asm None m) res
  = if holds LS (subs_flags (regs m len) (regs m i)) then 2 else 1.
Proof.
  unfold testBranch1_asm. cbn [exec].
  destruct (holds LS _); reflexivity.
Qed.

Lemma exec_testBranch3 (m : machine) :
  regs (exec testBranch3_asm None m) res
  = if holds EQ (adds_flags (regs m i) (wrap 1))
       || holds LE (subs_flags (regs m len) (regs m i))
    then 2 else 1.
Proof.
  unfold testBranch3_asm. cbn [exec nzcv regs set].
  destruct (holds EQ _), (holds LE _); reflexivity.
Qed.

Lemma testBranch3_value (before : machine) (vi vlen : Z) :
  - 2 ^ 31 <= vi < 2 ^ 31 -> - 2 ^ 31 <= vlen < 2 ^ 31 ->
  testBranch3 before vi vlen = if (vi =? -1) || (vlen <=? vi) then 2 else 1.
Proof.
  intros Hi Hl. unfold testBranch3. rewrite exec_testBranch3.
  change (regs (entry before vi vlen) len) with (wrap vlen).
  change (regs (entry before vi vlen) i) with (wrap vi).
  rewrite eq_after_cmn_1, le_after_cmp by assumption.
  destruct ((vi =? -1) || (vlen <=? vi)); reflexivity.
Qed.

Lemma testBranch1_value (before : machine) (vi vlen : Z) :
  testBranch1 before vi vlen = if wrap vlen <=? wrap vi then 2 else 1.
Proof.
  unfold testBranch1. rewrite exec_testBranch1.
  change (regs (entry before vi vlen) len) with (wrap vlen).
  change (regs (entry before vi vlen) i) with (wrap vi).
  rewrite ls_after_cmp by apply wrap_range.
  destruct (wrap vlen <=? wrap vi); reflexivity.
Qed.

End Flags.

(** X15: whatever the registers and flags held before, [testBranch1]
    returns 2 if [len], read as an unsigned 32-bit number, is at most [i]
    read the same way, and 1 otherwise. *)
Theorem testBranch1_is_unsigned_compare (before : TestASM.machine)
    (vi vlen : Z) :
  TestASM.testBranch1 before vi vlen
  = if TestASM.wrap vlen <=? TestASM.wrap vi then 2 else 1.
Proof. apply testBranch1_value. Qed.

(** X16: for [i] from -1 up and a [len] that is not negative, the inputs
    of the benchmarks and of [correctness], the assembly of [testBranch1]
    returns what the C++ of [testBranch2] returns. *)
Theorem testBranch1_agrees_from_minus_one (before : TestASM.machine)
    (vi vlen : Z) :
  -1 <= vi < 2 ^ 31 ->
  0 <= vlen < 2 ^ 31 ->
  TestASM.testBranch1 before vi vlen = TestASM.testBranch2 vi vlen.
Proof.
  intros Hi Hl. rewrite testBranch1_value.
  rewrite (wrap_int32 vi) by lia. rewrite (wrap_int32 vlen) by lia.
  unfold TestASM.testBranch2.
  destruct (Z.ltb_spec vlen 0); [lia|].
  destruct (Z.eqb_spec vi (-1)) as [->|Hne].
  - simpl. destruct (Z.leb_spec vlen (-1 + 2 ^ 32)); [reflexivity | lia].
  - destruct (Z.ltb_spec vi 0); [lia|].
    destruct (Z.leb_spec vlen vi), (Z.ltb_spec vi vlen); reflexivity || lia.
Qed.

Lemma testBranch1_agrees_from_minus_one_witness :
  TestASM.testBranch1
    (TestASM.mkMachine (fun _ => 0) (TestASM.mkFlags false false false false))
    (-1) 7
  = TestASM.testBranch2 (-1) 7.
Proof.
  exact (testBranch1_agrees_from_minus_one _ (-1) 7 ltac:(lia) ltac:(lia)).
Defined.

(** X17: below -1 the two part: for such an [i] and a [len] that is not
    negative [testBranch1] returns 2, the unsigned reading of [i] being
    large, where [testBranch2] returns 1. *)
Theorem testBranch1_differs_below_minus_one (before : TestASM.machine)
    (vi vlen : Z) :
  - 2 ^ 31 <= vi < -1 ->
  0 <= vlen < 2 ^ 31 ->
  TestASM.testBranch1 before vi vlen = 2
  /\ TestASM.testBranch2 vi vlen = 1.
Proof.
  intros Hi Hl. rewrite testBranch1_value.
  rewrite (wrap_int32 vi) by lia. rewrite (wrap_int32 vlen) by lia.
  unfold TestASM.testBranch2.
  destruct (Z.ltb_spec vlen 0); [lia|].
  destruct (Z.ltb_spec vi 0); [|lia].
  destruct (Z.leb_spec vlen (vi + 2 ^ 32)); [|lia].
  destruct (Z.eqb_spec vi (-1)); [lia|].
  destruct (Z.ltb_spec vi vlen); [|lia].
  split; reflexivity.
Qed.

Lemma testBranch1_differs_below_minus_one_witness :
  TestASM.testBranch1
    (TestASM.mkMachine (fun _ => 0) (TestASM.mkFlags false false false false))
    (-2) 7 = 2
  /\ TestASM.testBranch2 (-2) 7 = 1.
Proof.
  exact (testBranch1_differs_below_minus_one _ (-2) 7 ltac:(lia) ltac:(lia)).
Defined.

(** X18: on every pair of [int32_t] arguments, and whatever the registers
    and flags held before, the assembly of [testBranch3] returns what the
    C++ of [testBranch2] and of [testBranch4] returns. *)
Theorem testBranch3_agrees_everywhere (before : TestASM.machine)
    (vi vlen : Z) :
  - 2 ^ 31 <= vi < 2 ^ 31 ->
  - 2 ^ 31 <= vlen < 2 ^ 31 ->
  TestASM.testBranch3 before vi vlen = TestASM.testBranch2 vi vlen
  /\ TestASM.testBranch3 before vi vlen = TestASM.testBranch4 vi vlen.
Proof.
  intros Hi Hl. rewrite (testBranch3_value before vi vlen Hi Hl).
  unfold TestASM.testBranch2, TestASM.testBranch4.
  destruct (Z.eqb_spec vi (-1)); simpl; [split; reflexivity|].
  destruct (Z.leb_spec vlen vi), (Z.ltb_spec vi vlen);
    (split; reflexivity) || lia.
Qed.

Lemma testBranch3_agrees_everywhere_witness :
  TestASM.testBranch3
    (TestASM.mkMachine (fun _ => 5) (TestASM.mkFlags true true true true))
    (- 2 ^ 31) (2 ^ 31 - 1)
  = TestASM.testBranch2 (- 2 ^ 31) (2 ^ 31 - 1).
Proof.
  exact (proj1 (testBranch3_agrees_everywhere _ (- 2 ^ 31) (2 ^ 31 - 1)
                  ltac:(lia) ltac:(lia))).
Defined.


(** ** Cpp/LowLevelInterpreter.cpp: the label macros *)

Section MacroProperties.

Import LLInt.

Lemma length_append (s t : string) :
  String.length (s +:+ t) = (String.length s + String.length t)%nat.
Proof.
  induction s as [|c s IH]; [reflexivity|].
  rewrite append_cons. simpl. now rewrite IH.
Qed.

(** A text put in front of another changes it unless it is empty. *)
Lemma append_fixed (a y : string) : a +:+ y = y -> a = "".
Proof.
  intros H. apply (f_equal String.length) in H.
  rewrite length_append in H.
  destruct a; [reflexivity | simpl in H; lia].
Qed.

Lemma alt_entry_empty (alt : bool) (symbol : string) :
  Directives.OFFLINE_ASM_ALT_ENTRY_DIRECTIVE alt symbol = "" <-> alt = false.
Proof.
  destruct alt; simpl; split; try reflexivity; discriminate.
Qed.

End MacroProperties.

(** X19: in every configuration, for every alternate-entry, alignment and
    visibility argument, the block of [OFFLINE_ASM_GLOBAL_LABEL_IMPL] begins
    with the section directive of the OS and ends with the symbol's
    definition, the symbol string followed by a colon and a newline. *)
Theorem global_label_block_shape (cfg : LLInt.Config)
    (SYMBOL_STRING THUMB_FUNC_PARAM : string -> string)
    (label : string) (ALT_ENTRY : string -> string) (ALIGNMENT : string)
    (VISIBILITY : string -> string) :
  exists middle : string,
    LLInt.OFFLINE_ASM_GLOBAL_LABEL_IMPL cfg SYMBOL_STRING THUMB_FUNC_PARAM
      label ALT_ENTRY ALIGNMENT VISIBILITY
    = Directives.OFFLINE_ASM_TEXT_SECTION (LLInt.os_darwin cfg)
      +:+ middle
      +:+ Directives.symbol_definition (SYMBOL_STRING label) +:+ LLInt.nl.
Proof.
  unfold LLInt.OFFLINE_ASM_GLOBAL_LABEL_IMPL, LLInt.OFFLINE_ASM_TEXT_SECTION,
    Directives.symbol_definition.
  destruct (LLInt.cpu_arm_thumb2 cfg); [|destruct (LLInt.cpu_riscv64 cfg)].
  - exists (ALIGNMENT +:+ ALT_ENTRY label
            +:+ ".globl " +:+ SYMBOL_STRING label +:+ LLInt.nl
            +:+ VISIBILITY label +:+ LLInt.nl
            +:+ ".thumb" +:+ LLInt.nl
            +:+ ".thumb_func " +:+ THUMB_FUNC_PARAM label +:+ LLInt.nl).
    rewrite !append_assoc. reflexivity.
  - exists (ALIGNMENT +:+ ALT_ENTRY label
            +:+ ".globl " +:+ SYMBOL_STRING label +:+ LLInt.nl
            +:+ ".attribute arch, " +:+ LLInt.double_quote +:+ "rv64gc"
            +:+ LLInt.double_quote +:+ LLInt.nl
            +:+ VISIBILITY label +:+ LLInt.nl).
    rewrite !append_assoc. reflexivity.
  - exists (ALIGNMENT +:+ ALT_ENTRY label
            +:+ ".globl " +:+ SYMBOL_STRING label +:+ LLInt.nl
            +:+ VISIBILITY label +:+ LLInt.nl).
    rewrite !append_assoc. reflexivity.
Qed.

(** X20: [OFFLINE_ASM_GLOBAL_LABEL] writes the block [OFFLINE_ASM_BEGIN]
    writes for its label, the one without an alternate-entry line, exactly
    if the compiler is not Clang, or the OS is not Darwin, or alternate
    entries are not enabled. *)
Theorem global_label_alt_entry_iff (cfg : LLInt.Config)
    (SYMBOL_STRING HIDE_SYMBOL THUMB_FUNC_PARAM : string -> string)
    (label : string) :
  LLInt.OFFLINE_ASM_GLOBAL_LABEL cfg SYMBOL_STRING HIDE_SYMBOL
    THUMB_FUNC_PARAM label
  = LLInt.OFFLINE_ASM_GLOBAL_LABEL_IMPL cfg SYMBOL_STRING THUMB_FUNC_PARAM
      label LLInt.OFFLINE_ASM_NO_ALT_ENTRY_DIRECTIVE
      Directives.OFFLINE_ASM_ALIGN4B HIDE_SYMBOL
  <-> LLInt.compiler_clang cfg && LLInt.os_darwin cfg
      && LLInt.enable_offline_asm_alt_entry cfg = false.
Proof.
  unfold LLInt.OFFLINE_ASM_GLOBAL_LABEL, LLInt.OFFLINE_ASM_GLOBAL_LABEL_IMPL,
    LLInt.OFFLINE_ASM_ALT_ENTRY_DIRECTIVE,
    LLInt.OFFLINE_ASM_NO_ALT_ENTRY_DIRECTIVE.
  rewrite <- (alt_entry_empty _ (SYMBOL_STRING label)).
  set (alt := Directives.OFFLINE_ASM_ALT_ENTRY_DIRECTIVE _ _).
  split.
  - intros H.
    destruct (LLInt.cpu_arm_thumb2 cfg); [|destruct (LLInt.cpu_riscv64 cfg)];
      do 2 (apply (inj (String.append _)) in H);
      exact (append_fixed _ _ H).
  - intros ->. reflexivity.
Qed.

(** X21: in every configuration, alternate entries enabled or not, the
    text of [OFFLINE_ASM_BEGIN] starts with the section directive, the
    4-byte alignment and the [.globl] line of [jsc_llint_begin], with no
    alternate-entry line before it, and ends with the spacer, which is never
    empty. *)
Theorem begin_label_is_not_alt_entry (cfg : LLInt.Config)
    (SYMBOL_STRING HIDE_SYMBOL THUMB_FUNC_PARAM : string -> string)
    (WTF_FATAL_CRASH_CODE : string) :
  exists rest : string,
    LLInt.OFFLINE_ASM_BEGIN cfg SYMBOL_STRING HIDE_SYMBOL THUMB_FUNC_PARAM
      WTF_FATAL_CRASH_CODE
    = Directives.OFFLINE_ASM_TEXT_SECTION (LLInt.os_darwin cfg)
      +:+ Directives.OFFLINE_ASM_ALIGN4B
      +:+ ".globl " +:+ SYMBOL_STRING "jsc_llint_begin" +:+ LLInt.nl
      +:+ rest
      +:+ LLInt.OFFLINE_ASM_BEGIN_SPACER cfg WTF_FATAL_CRASH_CODE
    /\ LLInt.OFFLINE_ASM_BEGIN_SPACER cfg WTF_FATAL_CRASH_CODE <> "".
Proof.
  unfold LLInt.OFFLINE_ASM_BEGIN, LLInt.OFFLINE_ASM_GLOBAL_LABEL_IMPL,
    LLInt.OFFLINE_ASM_TEXT_SECTION, LLInt.OFFLINE_ASM_NO_ALT_ENTRY_DIRECTIVE.
  assert (Hspacer : LLInt.OFFLINE_ASM_BEGIN_SPACER cfg WTF_FATAL_CRASH_CODE
                    <> "").
  { unfold LLInt.OFFLINE_ASM_BEGIN_SPACER.
    destruct (LLInt.cpu_arm_thumb2 cfg); [discriminate|].
    destruct (LLInt.cpu_arm64 cfg); [discriminate|].
    destruct (LLInt.cpu_x86_64 cfg); discriminate. }
  destruct (LLInt.cpu_arm_thumb2 cfg); [|destruct (LLInt.cpu_riscv64 cfg)].
  - exists (HIDE_SYMBOL "jsc_llint_begin" +:+ LLInt.nl
            +:+ ".thumb" +:+ LLInt.nl
            +:+ ".thumb_func " +:+ THUMB_FUNC_PARAM "jsc_llint_begin"
            +:+ LLInt.nl
            +:+ SYMBOL_STRING "jsc_llint_begin" +:+ ":" +:+ LLInt.nl).
    split; [|exact Hspacer]. rewrite !append_assoc. reflexivity.
  - exists (".attribute arch, " +:+ LLInt.double_quote +:+ "rv64gc"
            +:+ LLInt.double_quote +:+ LLInt.nl
            +:+ HIDE_SYMBOL "jsc_llint_begin" +:+ LLInt.nl
            +:+ SYMBOL_STRING "jsc_llint_begin" +:+ ":" +:+ LLInt.nl).
    split; [|exact Hspacer]. rewrite !append_assoc. reflexivity.
  - exists (HIDE_SYMBOL "jsc_llint_begin" +:+ LLInt.nl
            +:+ SYMBOL_STRING "jsc_llint_begin" +:+ ":" +:+ LLInt.nl).
    split; [|exact Hspacer]. rewrite !append_assoc. reflexivity.
Qed.
